(** * riot-sys: the two tool-workaround headers

    [riot-bindgen.h] and [riot-c2rust.h] are sequences of preprocessor
    directives.  Each header is embedded as the list of its source lines; the
    lines are lexed into directives and the directives are run over a table of
    macro definitions.  The headers they include ([rmutex.h],
    [riot-headers.h]) are outside this repository's two files: their effect
    on the macro table is a parameter of the semantics. *)

From Stdlib Require Import ZArith Ascii String.
From stdpp Require Import base option list strings gmap fin_maps.

Local Open Scope string_scope.

(** ** Lexing one source line *)

Module Lex.

Definition dquote : ascii := "034"%char.

(** A quoted file name, as written in [#include "file"]. *)
Definition quoted (s : string) : string :=
  String dquote (s ++ String dquote "").

Definition is_space (c : ascii) : bool :=
  (c =? " ")%char || (c =? "009")%char.

Definition between (lo hi : nat) (c : ascii) : bool :=
  (lo <=? nat_of_ascii c)%nat && (nat_of_ascii c <=? hi)%nat.

Definition is_digit (c : ascii) : bool := between 48 57 c.

Definition is_letter (c : ascii) : bool :=
  between 65 90 c || between 97 122 c || (c =? "_")%char.

Definition is_word_char (c : ascii) : bool := is_letter c || is_digit c.

(** Translation phase 3: a [//] comment runs to the end of the line, except
    inside a double-quoted header name or string. *)
Fixpoint strip_line_comment (in_quote : bool) (s : string) : string :=
  match s with
  | EmptyString => ""
  | String c r =>
      if in_quote then String c (strip_line_comment (negb (c =? dquote)%char) r)
      else
        match r with
        | String c' _ =>
            if (c =? "/")%char && (c' =? "/")%char then ""
            else String c (strip_line_comment (c =? dquote)%char r)
        | EmptyString => String c ""
        end
  end.

Fixpoint skip_spaces (s : string) : string :=
  match s with
  | String c r => if is_space c then skip_spaces r else s
  | EmptyString => ""
  end.

(** The longest prefix of word characters, and what follows it. *)
Fixpoint span_word (s : string) : string * string :=
  match s with
  | String c r =>
      if is_word_char c then
        let '(w, rest) := span_word r in (String c w, rest)
      else ("", s)
  | EmptyString => ("", "")
  end.

(** Everything up to the first occurrence of [stop], and what follows it;
    [None] when [stop] does not occur. *)
Fixpoint span_until (stop : ascii) (s : string) : option (string * string) :=
  match s with
  | String c r =>
      if (c =? stop)%char then Some ("", r)
      else '(w, rest) ← span_until stop r; Some (String c w, rest)
  | EmptyString => None
  end.

Definition flush (cur : string) : list string :=
  match cur with EmptyString => [] | _ => [cur] end.

(** Preprocessing tokens of a replacement list: runs of word characters
    (identifiers and numbers) and single punctuation characters. *)
Fixpoint tokenize_from (cur : string) (s : string) : list string :=
  match s with
  | EmptyString => flush cur
  | String c r =>
      if is_word_char c then tokenize_from (cur ++ String c "") r
      else if is_space c then flush cur ++ tokenize_from "" r
      else flush cur ++ String c "" :: tokenize_from "" r
  end.

Definition tokenize (s : string) : list string := tokenize_from "" s.

Definition is_identifier (s : string) : bool :=
  match s with
  | String c r => is_letter c && forallb is_word_char (list_ascii_of_string r)
  | EmptyString => false
  end.

End Lex.

(** ** Directives *)

Inductive include_form := Angle | Quoted.

(** A macro definition: [macro_params] is [None] for an object-like macro
    and the parameter names for a function-like one; [macro_body] is the
    replacement list. *)
Record macro := Macro {
  macro_params : option (list string);
  macro_body : list string
}.

Inductive pp_line :=
  | Blank                                   (* empty or comment-only line *)
  | PDefine (name : string) (m : macro)     (* #define name body, #define name(ps) body *)
  | PUndef (name : string)                  (* #undef name *)
  | PInclude (form : include_form) (file : string)  (* #include <file>, #include "file" *)
  | POther.                                 (* any other directive, or program text *)

#[global] Instance include_form_eq_dec : EqDecision include_form.
Proof. solve_decision. Defined.
#[global] Instance macro_eq_dec : EqDecision macro.
Proof. solve_decision. Defined.
#[global] Instance pp_line_eq_dec : EqDecision pp_line.
Proof. solve_decision. Defined.

Module Parse.
Import Lex.

(** The parameter list of a function-like macro, read after its opening
    parenthesis: the parameter names and the tokens after the closing
    parenthesis. *)
Fixpoint parse_params (ts : list string) : option (list string * list string) :=
  match ts with
  | p :: sep :: rest =>
      if is_identifier p then
        if sep =? ")" then Some ([p], rest)
        else if sep =? "," then
          '(ps, body) ← parse_params rest; Some (p :: ps, body)
        else None
      else None
  | _ => None
  end.

Definition parse_define (rest : string) : pp_line :=
  let '(name, r) := span_word (skip_spaces rest) in
  if is_identifier name then
    match r with
    | String c r' =>
        if (c =? "(")%char then
          match tokenize r' with
          | ")" :: body => PDefine name (Macro (Some []) body)
          | ts =>
              match parse_params ts with
              | Some (ps, body) => PDefine name (Macro (Some ps) body)
              | None => POther
              end
          end
        else PDefine name (Macro None (tokenize r))
    | EmptyString => PDefine name (Macro None [])
    end
  else POther.

Definition parse_undef (rest : string) : pp_line :=
  let '(name, r) := span_word (skip_spaces rest) in
  if is_identifier name then
    match skip_spaces r with
    | EmptyString => PUndef name
    | _ => POther
    end
  else POther.

Definition parse_include (rest : string) : pp_line :=
  match skip_spaces rest with
  | String c r =>
      if (c =? "<")%char then
        match span_until ">" r with
        | Some (file, _) => PInclude Angle file
        | None => POther
        end
      else if (c =? dquote)%char then
        match span_until dquote r with
        | Some (file, _) => PInclude Quoted file
        | None => POther
        end
      else POther
  | EmptyString => POther
  end.

Definition parse_line (l : string) : pp_line :=
  match skip_spaces (strip_line_comment false l) with
  | EmptyString => Blank
  | String c r =>
      if (c =? "#")%char then
        let '(kw, rest) := span_word (skip_spaces r) in
        if kw =? "define" then parse_define rest
        else if kw =? "undef" then parse_undef rest
        else if kw =? "include" then parse_include rest
        else POther
      else POther
  end.

End Parse.

(** ** The two headers, line by line *)

Definition riot_bindgen_h : list string := [
  (* 1 *) "// Workarounds for https://github.com/rust-lang/rust-bindgen/issues/1636";
  (* 2 *) "// (only needed when building for cortex using toolchain=llvm)";
  (* 3 *) "#define UINT16_MAX 0xffff";
  (* 4 *) "#define UINT32_MAX 0xffffffff";
  (* 5 *) "";
  (* 6 *) "#include " ++ Lex.quoted "riot-headers.h";
  (* 7 *) ""
].

Definition riot_c2rust_h : list string := [
  (*  1 *) "// This is currently the only relevant user of stdatomic.h. As it doesn't";
  (*  2 *) "// access its relevant atomic field from static inlines (and thus from built";
  (*  3 *) "// Rust) and forbids users from touching it themselves, we can work around";
  (*  4 *) "// C2Rust's current inability to do atomics here";
  (*  5 *) "//";
  (*  6 *) "// Proper fix: resolve https://github.com/immunant/c2rust/issues/293";
  (*  7 *) "#define __CLANG_STDATOMIC_H // for clang";
  (*  8 *) "#define _STDATOMIC_H // for GCC";
  (*  9 *) "#define _STDATOMIC_H_ // for newlib";
  (* 10 *) "#define ATOMIC_VAR_INIT(x) x";
  (* 11 *) "#define atomic_int_least16_t int_least16_t // FIXME is it?";
  (* 12 *) "#include <rmutex.h>";
  (* 13 *) "#undef __CLANG_STDATOMIC_H";
  (* 14 *) "#undef _STDATOMIC_H_";
  (* 15 *) "#undef _STDATOMIC_H";
  (* 16 *) "#undef ATOMIC_VAR_INIT";
  (* 17 *) "#undef atomic_int_least16_t";
  (* 18 *) "";
  (* 19 *) "// Allow header files that pull in lots of odd stuff but don't depend on";
  (* 20 *) "// inlines -- like nimble's host/ble_gap.h -- to opt out of C2Rust altogether";
  (* 21 *) "#define IS_C2RUST";
  (* 22 *) "";
  (* 23 *) "#include " ++ Lex.quoted "riot-headers.h"
].

Definition parse_header (text : list string) : list pp_line :=
  map Parse.parse_line text.

(** ** Macro tables and the replacement of a macro invocation *)

Abbreviation macro_env := (gmap string macro).

Definition object_like (body : list string) : macro := Macro None body.

Definition defined (n : string) (E : macro_env) : bool := bool_decide (is_Some (E !! n)).

Module Expand.

Local Open Scope list_scope.

(** A preprocessing token during expansion, with its hide set: the macros
    whose replacement produced it and which it may not invoke again. *)
Record ptoken := PTok {
  tok : string;
  hide : list string
}.

(** Tokens as read from the source: nothing hidden. *)
Definition plain (ts : list string) : list ptoken := map (λ t, PTok t []) ts.

(** The spelling of expanded tokens. *)
Definition erase (ps : list ptoken) : list string := map tok ps.

Definition hidden (t : string) (hs : list string) : bool := existsb (String.eqb t) hs.

(** Adds [hs] to the hide set of every token. *)
Definition hsadd (hs : list string) (ps : list ptoken) : list ptoken :=
  map (λ p, PTok (tok p) (hs ++ hide p)) ps.

(** The argument a parameter name is bound to. *)
Fixpoint param_arg {A} (ps : list string) (args : list A) (t : string) : option A :=
  match ps, args with
  | p :: ps', a :: args' => if p =? t then Some a else param_arg ps' args' t
  | _, _ => None
  end.

(** The arguments of an invocation, read after its opening parenthesis:
    commas outside nested parentheses separate the arguments, the matching
    closing parenthesis ends them.  Gives the arguments, the hide set of the
    closing parenthesis and the tokens after it; [None] when the argument
    list is not closed. *)
Fixpoint collect_args (depth : nat) (cur : list ptoken) (acc : list (list ptoken))
    (ts : list ptoken) : option (list (list ptoken) * list string * list ptoken) :=
  match ts with
  | [] => None
  | p :: r =>
      if tok p =? ")" then
        match depth with
        | 0 => Some (acc ++ [cur], hide p, r)
        | S d => collect_args d (cur ++ [p]) acc r
        end
      else if tok p =? "(" then collect_args (S depth) (cur ++ [p]) acc r
      else if (tok p =? ",") && (depth =? 0)%nat then collect_args 0 [] (acc ++ [cur]) r
      else collect_args depth (cur ++ [p]) acc r
  end.

(** [name()] passes no argument to a macro without parameters, and one
    empty argument to any other. *)
Definition actuals (ps : list string) (args : list (list ptoken)) : list (list ptoken) :=
  match ps, args with
  | [], [[]] => []
  | _, _ => args
  end.

(** The replacement list with each parameter replaced by its argument, the
    argument being macro-expanded first (by [ex]). *)
Fixpoint subst (ex : list ptoken → option (list ptoken)) (ps : list string)
    (args : list (list ptoken)) (body : list string) : option (list ptoken) :=
  match body with
  | [] => Some []
  | t :: b =>
      match param_arg ps args t with
      | Some a => a' ← ex a; rest ← subst ex ps args b; Some (a' ++ rest)
      | None => rest ← subst ex ps args b; Some (PTok t [] :: rest)
      end
  end.

(** Replacement lists using the [#] and [##] operators are outside this
    model. *)
Definition supported (m : macro) : bool :=
  forallb (λ t, negb (t =? "#")) (macro_body m).

(** Macro expansion of a token sequence: a macro name that is not hidden is
    replaced by its replacement list, in which the arguments have been
    expanded and which is then rescanned together with the tokens that
    follow, the name itself being hidden in what it produced.  A
    function-like macro name not followed by [(] stands for itself.  The
    result is [None] when an argument list is not closed or has the wrong
    number of arguments, when a macro is outside the model, or when [fuel]
    runs out. *)
Fixpoint expand (fuel : nat) (E : macro_env) (ts : list ptoken) : option (list ptoken) :=
  match fuel with
  | 0 => None
  | S f =>
      match ts with
      | [] => Some []
      | p :: r =>
          if hidden (tok p) (hide p) then (p ::.) <$> expand f E r
          else
            match E !! tok p with
            | None => (p ::.) <$> expand f E r
            | Some m =>
                if supported m then
                  match macro_params m with
                  | None =>
                      expand f E (hsadd (tok p :: hide p) (plain (macro_body m)) ++ r)
                  | Some ps =>
                      match r with
                      | q :: r' =>
                          if tok q =? "(" then
                            '(args, hs, rest) ← collect_args 0 [] [] r';
                            let args := actuals ps args in
                            if (length ps =? length args)%nat then
                              body ← subst (expand f E) ps args (macro_body m);
                              expand f E
                                (hsadd (tok p :: filter (λ h, hidden h hs) (hide p)) body
                                   ++ rest)
                            else None
                          else (p ::.) <$> expand f E r
                      | [] => Some [p]
                      end
                  end
                else None
            end
      end
  end.

(** The tokens of the invocation [name(x)]. *)
Definition invocation (name : string) (x : list string) : list ptoken :=
  plain (name :: "(" :: x ++ [")"]).

(** A token sequence that can stand as one macro argument: its parentheses
    are balanced and it has no comma outside them.  [balanced_from d] reads
    a sequence that starts inside [d] open parentheses. *)
Fixpoint balanced_from (depth : nat) (x : list string) : bool :=
  match x with
  | [] => (depth =? 0)%nat
  | t :: r =>
      if t =? ")" then
        match depth with
        | 0 => false
        | S d => balanced_from d r
        end
      else if t =? "(" then balanced_from (S depth) r
      else if (t =? ",") && (depth =? 0)%nat then false
      else balanced_from depth r
  end.

Definition single_argument (x : list string) : bool := balanced_from 0 x.

(** What an identifier standing alone is replaced by: the replacement list
    of an object-like macro of that name, the identifier itself otherwise. *)
Definition replace_identifier (E : macro_env) (t : string) : list string :=
  match E !! t with
  | Some (Macro None body) => body
  | _ => [t]
  end.

End Expand.

(** ** C integer constants *)

Module IntConst.

Definition digit_value (c : ascii) : option Z :=
  let n := nat_of_ascii c in
  if Lex.between 48 57 c then Some (Z.of_nat (n - 48))
  else if Lex.between 97 102 c then Some (Z.of_nat (n - 87))
  else if Lex.between 65 70 c then Some (Z.of_nat (n - 55))
  else None.

Definition is_suffix_char (c : ascii) : bool :=
  (c =? "u")%char || (c =? "U")%char || (c =? "l")%char || (c =? "L")%char.

(** Digits in [base], most significant first, followed by an optional
    integer suffix. *)
Fixpoint digits (base : Z) (acc : Z) (s : string) : option Z :=
  match s with
  | EmptyString => Some acc
  | String c r =>
      if is_suffix_char c then
        if forallb is_suffix_char (list_ascii_of_string r) then Some acc else None
      else
        match digit_value c with
        | Some d => if (d <? base)%Z then digits base (base * acc + d)%Z r else None
        | None => None
        end
  end.

(** Value of a decimal, octal or hexadecimal integer constant. *)
Definition value (s : string) : option Z :=
  match s with
  | String "0" (String x r) =>
      if (x =? "x")%char || (x =? "X")%char then
        match r with
        | EmptyString => None
        | String c _ => if is_suffix_char c then None else digits 16 0 r
        end
      else digits 8 0 (String x r)
  | String c _ => if Lex.is_digit c then digits 10 0 s else None
  | EmptyString => None
  end.

End IntConst.

(** The integer a macro stands for, when it is an object-like macro whose
    replacement list is a single integer constant. *)
Definition macro_constant (E : macro_env) (n : string) : option Z :=
  match E !! n with
  | Some (Macro None [t]) => IntConst.value t
  | _ => None
  end.

(** ** Running a header *)

Section Preprocess.

(** What processing an included file does to the macro table; [None] when the
    inclusion fails (file not found, [#error], ...). *)
Variable included : include_form → string → macro_env → option macro_env.

(** A redefinition replaces the earlier definition (the tools the headers are
    written for read them with clang, which warns and goes on). *)
Definition exec_line (l : pp_line) (E : macro_env) : option macro_env :=
  match l with
  | Blank => Some E
  | PDefine n m => Some (<[n := m]> E)
  | PUndef n => Some (delete n E)
  | PInclude form file => included form file E
  | POther => None
  end.

Fixpoint exec (ls : list pp_line) (E : macro_env) : option macro_env :=
  match ls with
  | [] => Some E
  | l :: rest => E' ← exec_line l E; exec rest E'
  end.

(** The macro table after the whole header. *)
Definition preprocess (text : list string) (E : macro_env) : option macro_env :=
  exec (parse_header text) E.

(** The macro table in force when line [k] (counted from 1, as in the source)
    is about to be processed. *)
Definition env_at_line (k : nat) (text : list string) (E : macro_env) : option macro_env :=
  exec (parse_header (take (k - 1) text)) E.

End Preprocess.

(** Included files that leave the macro table as it is. *)
Definition inert_includes : include_form → string → macro_env → option macro_env :=
  fun _ _ E => Some E.

(** An include-guarded header: [#ifndef g], [#define g], contents, [#endif].
    The comments on lines 7-9 of [riot-c2rust.h] name the guards of the
    stdatomic.h of clang, GCC and newlib.  The contents are skipped when the
    guard is already defined. *)
Definition guarded_header (g : string) (contents : macro_env → option macro_env)
    (E : macro_env) : option macro_env :=
  if defined g E then Some E else contents (<[g := object_like []]> E).

(** ** Reading a header's directives *)

(** Line [k] of a header, counted from 1. *)
Definition line (k : nat) (text : list string) : option pp_line :=
  Parse.parse_line <$> text !! (k - 1).

(** Lines [from] to [to] of a header, both included. *)
Definition lines (from to : nat) (text : list string) : list pp_line :=
  parse_header (take (S to - from) (drop (from - 1) text)).

Definition is_define (l : pp_line) : bool :=
  match l with PDefine _ _ => true | _ => false end.

Definition is_undef (l : pp_line) : bool :=
  match l with PUndef _ => true | _ => false end.

Definition is_include (l : pp_line) : bool :=
  match l with PInclude _ _ => true | _ => false end.

Definition is_blank (l : pp_line) : bool :=
  match l with Blank => true | _ => false end.

(** Lines that touch the macro table without reading another file. *)
Definition is_local (l : pp_line) : bool := is_blank l || is_define l || is_undef l.

(** The directives of a header: its lines without the blank and comment
    lines. *)
Definition directives (ls : list pp_line) : list pp_line :=
  filter (λ l, is_blank l = false) ls.

Definition defined_names (ls : list pp_line) : list string :=
  omap (λ l, match l with PDefine n _ => Some n | _ => None end) ls.

Definition undefined_names (ls : list pp_line) : list string :=
  omap (λ l, match l with PUndef n => Some n | _ => None end) ls.

Definition included_files (ls : list pp_line) : list (include_form * string) :=
  omap (λ l, match l with PInclude f file => Some (f, file) | _ => None end) ls.

(** What one line does to the definition of [n]: [Some (Some m)] when it
    defines [n] as [m], [Some None] when it undefines [n], [None] when it
    leaves [n] alone. *)
Definition binding_of (n : string) (l : pp_line) : option (option macro) :=
  match l with
  | PDefine n' m => if n' =? n then Some (Some m) else None
  | PUndef n' => if n' =? n then Some None else None
  | _ => None
  end.

(** The definition of [n] after the lines [ls], starting from [cur]. *)
Fixpoint lookup_after (n : string) (ls : list pp_line) (cur : option macro) : option macro :=
  match ls with
  | [] => cur
  | l :: rest => lookup_after n rest (default cur (binding_of n l))
  end.

Fixpoint drop_while {A} (f : A → bool) (l : list A) : list A :=
  match l with
  | x :: r => if f x then drop_while f r else l
  | [] => []
  end.

(** The shape "macro definitions, one inclusion, macro cleanup, and nothing
    else": the directives are [#define]s, then a single [#include], then
    [#undef]s (the cleanup may be empty). *)
Definition brackets_single_inclusion (ls : list pp_line) : bool :=
  match drop_while is_define (directives ls) with
  | PInclude _ _ :: cleanup => forallb is_undef cleanup
  | _ => false
  end.

(** "No macro leaks out of the header": whenever the header is processed to
    its end, none of the names it defined is still defined. *)
Definition restores_macro_state
    (included : include_form → string → macro_env → option macro_env)
    (text : list string) : Prop :=
  ∀ E0 E', preprocess included text E0 = Some E' →
    Forall (λ n, E' !! n = None) (defined_names (parse_header text)).

(** An included file keeps [n] when processing it never undefines [n]. *)
Definition keeps (file : macro_env → option macro_env) (n : string) : Prop :=
  ∀ E E', file E = Some E' → is_Some (E !! n) → is_Some (E' !! n).

(** A sample initial macro table: one compiler-predefined macro. *)
Definition predefined : macro_env := {[ "__STDC__" := object_like ["1"] ]}.

(** The names lines 7-11 of [riot-c2rust.h] define. *)
Definition atomic_workaround_names : list string :=
  ["__CLANG_STDATOMIC_H"; "_STDATOMIC_H"; "_STDATOMIC_H_";
   "ATOMIC_VAR_INIT"; "atomic_int_least16_t"].

(** The include guards among them (lines 7-9). *)
Definition stdatomic_guards : list string :=
  ["__CLANG_STDATOMIC_H"; "_STDATOMIC_H"; "_STDATOMIC_H_"].

(** The macro table lines 7-11 of [riot-c2rust.h] make of [E]. *)
Definition atomic_workaround (E : macro_env) : macro_env :=
  <["atomic_int_least16_t" := object_like ["int_least16_t"]]>
    (<["ATOMIC_VAR_INIT" := Macro (Some ["x"]) ["x"]]>
      (<["_STDATOMIC_H_" := object_like []]>
        (<["_STDATOMIC_H" := object_like []]>
          (<["__CLANG_STDATOMIC_H" := object_like []]> E)))).

(** "The cleanup restores the five names to their prior state": whenever
    line 18 is reached, each of the five names is undefined and is as it was
    before the header. *)
Definition cleanup_restores_prior_state
    (included : include_form → string → macro_env → option macro_env) : Prop :=
  ∀ E0 E18, env_at_line included 18 riot_c2rust_h E0 = Some E18 →
    Forall (λ n, E18 !! n = None ∧ E18 !! n = E0 !! n) atomic_workaround_names.

(** "[name] is the identity macro": whatever single argument [x] it is
    invoked on, the expansion of [name(x)] is [x]. *)
Definition identity_macro (E : macro_env) (name : string) : Prop :=
  ∀ x fuel r, Expand.single_argument x = true →
    Expand.expand fuel E (Expand.invocation name x) = Some r →
    Expand.erase r = x.

(** The name a line binds or unbinds, if any. *)
Definition bound_name (l : pp_line) : option string :=
  match l with
  | PDefine n _ | PUndef n => Some n
  | _ => None
  end.

Definition bound_names (ls : list pp_line) : list string := omap bound_name ls.

(** A sample included tree: [rmutex.h] under the include guard RMUTEX_H,
    defining one macro of its own; every other file changes nothing. *)
Definition sample_includes : include_form → string → macro_env → option macro_env :=
  fun _ file E =>
    if file =? "rmutex.h"
    then guarded_header "RMUTEX_H" (λ E, Some (<["RMUTEX_INIT" := object_like ["{"; "}"]]> E)) E
    else Some E.

(** Reads the definition of a name off the lines run so far, given the
    equations [H] of a run over lines that include nothing. *)
Ltac read_off H :=
  rewrite ?H;
  match goal with
  | |- context [lookup_after _ _ ?o] => generalize o; intros ?; vm_compute; reflexivity
  end.

(** Settles a decidable closed statement by evaluating its decision. *)
Ltac by_decide := apply (bool_decide_unpack _); vm_compute; exact I.

(** * Properties *)

(** ** The lexer, the constants and the replacement on small inputs *)

Example lines_are_told_apart :
  map Parse.parse_line
    ["#ifndef RMUTEX_H"; "int x; // text"; "#define 1X"; "#include FOO";
     "  # define F(a, b) a + b // sum"; "#define EMPTY()";
     "#include " ++ Lex.quoted "a//b.h" ++ " // kept"; "   // only a comment"]
  = [POther; POther; POther; POther;
     PDefine "F" (Macro (Some ["a"; "b"]) ["a"; "+"; "b"]);
     PDefine "EMPTY" (Macro (Some []) []);
     PInclude Quoted "a//b.h"; Blank].
Proof. vm_compute. reflexivity. Qed.

Example integer_constants :
  map IntConst.value ["0xffff"; "0XFFFFFFFFul"; "017"; "10"; "0"; "0x"; "08"; "ffff"]
  = [Some 65535; Some 4294967295; Some 15; Some 10; Some 0; None; None; None]%Z.
Proof. vm_compute. reflexivity. Qed.

Example expansions :
  let E : macro_env :=
    <["ADD" := Macro (Some ["a"; "b"]) ["a"; "+"; "b"]]>
      (<["ONE" := object_like ["1"]]>
        (<["SELF" := object_like ["SELF"; "+"; "ONE"]]>
          (<["NIL" := Macro (Some []) ["0"]]> ∅))) in
  map (λ ts, Expand.erase <$> Expand.expand 20 E (Expand.plain ts))
    [["ADD"; "("; "ONE"; ","; "("; "2"; ","; "3"; ")"; ")"];
     ["ADD"; "("; "1"; ")"];
     ["ADD"; "+"; "ONE"];
     ["SELF"];
     ["NIL"; "("; ")"];
     ["ADD"; "("; "1"; ","; "2"]]
  = [Some ["1"; "+"; "("; "2"; ","; "3"; ")"];
     None;
     Some ["ADD"; "+"; "1"];
     Some ["SELF"; "+"; "1"];
     Some ["0"];
     None].
Proof. vm_compute. reflexivity. Qed.

(** ** How a run decomposes *)

Section ExecFacts.

Variable included : include_form → string → macro_env → option macro_env.

Lemma exec_app l1 l2 E :
  exec included (l1 ++ l2) E = exec included l1 E ≫= exec included l2.
Proof.
  revert E. induction l1 as [|l l1 IH]; intros E; simpl; [done|].
  destruct (exec_line included l E) as [E1|]; simpl; [apply IH | done].
Qed.

Lemma exec_line_local l E :
  is_local l = true →
  ∃ E', exec_line included l E = Some E' ∧
        ∀ n, E' !! n = default (E !! n) (binding_of n l).
Proof.
  destruct l as [|n' m|n'|form file|]; try discriminate; intros _; simpl.
  - by exists E.
  - exists (<[n' := m]> E). split; [done|]. intros n.
    destruct (String.eqb_spec n' n) as [->|Hne]; simpl.
    + by rewrite lookup_insert_eq.
    + by rewrite lookup_insert_ne.
  - exists (delete n' E). split; [done|]. intros n.
    destruct (String.eqb_spec n' n) as [->|Hne]; simpl.
    + by rewrite lookup_delete_eq.
    + by rewrite lookup_delete_ne.
Qed.

(** A run of lines that include nothing always completes, and the
    definition of each name afterwards is read off the lines. *)
Lemma exec_local ls E :
  forallb is_local ls = true →
  ∃ E', exec included ls E = Some E' ∧
        ∀ n, E' !! n = lookup_after n ls (E !! n).
Proof.
  revert E. induction ls as [|l ls IH]; intros E Hls; simpl in *.
  - by exists E.
  - apply andb_prop in Hls as [Hl Hls].
    destruct (exec_line_local l E Hl) as (E1 & -> & H1). simpl.
    destruct (IH E1 Hls) as (E' & -> & H'). exists E'. split; [done|].
    intros n. by rewrite H', H1.
Qed.

(** Blank and comment lines do nothing: a run is the run of its directives,
    in their order. *)
Lemma exec_directives ls E :
  exec included ls E = exec included (directives ls) E.
Proof.
  revert E. induction ls as [|l ls IH]; intros E; [done|].
  unfold directives in *. rewrite filter_cons.
  destruct l as [|n m|n|form file|]; simpl; try done.
  destruct (included form file E) as [E1|]; simpl; [apply IH|done].
Qed.

(** A run that ends with an inclusion. *)
Lemma exec_snoc_include ls form file E E' :
  exec included (ls ++ [PInclude form file]) E = Some E' →
  ∃ E1, exec included ls E = Some E1 ∧ included form file E1 = Some E'.
Proof.
  rewrite exec_app. destruct (exec included ls E) as [E1|]; simpl; [|done].
  intros H. exists E1. split; [done|].
  by destruct (included form file E1).
Qed.

(** A run through an inclusion followed by lines that include nothing. *)
Lemma exec_include_local before form file after E E' :
  forallb is_local after = true →
  exec included (before ++ PInclude form file :: after) E = Some E' →
  ∃ E1 E2, exec included before E = Some E1 ∧
           included form file E1 = Some E2 ∧
           ∀ n, E' !! n = lookup_after n after (E2 !! n).
Proof.
  intros Hlocal. rewrite exec_app.
  destruct (exec included before E) as [E1|]; simpl; [|done].
  destruct (included form file E1) as [E2|] eqn:Hinc; simpl; [|done].
  destruct (exec_local after E2 Hlocal) as (E3 & -> & Hlook).
  intros [= <-]. by exists E1, E2.
Qed.

End ExecFacts.

(** ** The runs of the two headers *)

Lemma riot_bindgen_h_segments :
  parse_header riot_bindgen_h =
    (lines 1 5 riot_bindgen_h ++ PInclude Quoted "riot-headers.h" :: lines 7 7 riot_bindgen_h)%list.
Proof. vm_compute. reflexivity. Qed.

Lemma riot_c2rust_h_segments (k : nat) :
  (13 ≤ k ≤ 23)%nat →
  parse_header (take (k - 1) riot_c2rust_h) =
    (lines 1 11 riot_c2rust_h ++ PInclude Angle "rmutex.h"
       :: lines 13 (k - 1) riot_c2rust_h)%list
  ∧ forallb is_local (lines 13 (k - 1) riot_c2rust_h) = true.
Proof.
  intros Hk. assert (Hcases : k ∈ seq 13 11) by (apply elem_of_seq; lia).
  clear Hk. revert k Hcases. apply Forall_forall.
  change (seq 13 11) with [13; 14; 15; 16; 17; 18; 19; 20; 21; 22; 23]%nat.
  repeat (apply List.Forall_cons; [split; vm_compute; reflexivity|]).
  apply List.Forall_nil.
Qed.

Lemma riot_c2rust_h_last :
  parse_header riot_c2rust_h =
    (parse_header (take (23 - 1) riot_c2rust_h) ++ [PInclude Quoted "riot-headers.h"])%list.
Proof. vm_compute. reflexivity. Qed.

Section HeaderRuns.

Variable included : include_form → string → macro_env → option macro_env.

(** [riot-bindgen.h] reaches its inclusion on line 6 whatever the macro
    table it starts from. *)
Lemma bindgen_at_riot_headers E0 :
  ∃ E6, env_at_line included 6 riot_bindgen_h E0 = Some E6 ∧
        ∀ n, E6 !! n = lookup_after n (lines 1 5 riot_bindgen_h) (E0 !! n).
Proof.
  unfold env_at_line.
  change (parse_header (take (6 - 1) riot_bindgen_h)) with (lines 1 5 riot_bindgen_h).
  apply exec_local. vm_compute. reflexivity.
Qed.

Lemma bindgen_final E0 E' :
  preprocess included riot_bindgen_h E0 = Some E' →
  ∃ E6, env_at_line included 6 riot_bindgen_h E0 = Some E6 ∧
        included Quoted "riot-headers.h" E6 = Some E'.
Proof.
  unfold preprocess, env_at_line. rewrite riot_bindgen_h_segments.
  change (parse_header (take (6 - 1) riot_bindgen_h)) with (lines 1 5 riot_bindgen_h).
  intros H. apply exec_include_local in H as (E6 & E7 & H6 & H7 & Hlook);
    [|vm_compute; reflexivity].
  exists E6. split; [exact H6|]. rewrite H7. f_equal.
  apply map_eq. intros n. rewrite Hlook. generalize (E7 !! n). intros o.
  vm_compute. reflexivity.
Qed.

(** [riot-c2rust.h] reaches its first inclusion (line 12) whatever the macro
    table it starts from. *)
Lemma c2rust_at_rmutex E0 :
  ∃ E12, env_at_line included 12 riot_c2rust_h E0 = Some E12 ∧
         ∀ n, E12 !! n = lookup_after n (lines 1 11 riot_c2rust_h) (E0 !! n).
Proof.
  unfold env_at_line.
  change (parse_header (take (12 - 1) riot_c2rust_h)) with (lines 1 11 riot_c2rust_h).
  apply exec_local. vm_compute. reflexivity.
Qed.

(** A later line [k] of [riot-c2rust.h], up to the second inclusion, is
    reached exactly when the inclusion of [rmutex.h] completes. *)
Lemma c2rust_after_rmutex (k : nat) E0 Ek :
  (13 ≤ k ≤ 23)%nat →
  env_at_line included k riot_c2rust_h E0 = Some Ek →
  ∃ E12 E13,
    env_at_line included 12 riot_c2rust_h E0 = Some E12 ∧
    included Angle "rmutex.h" E12 = Some E13 ∧
    ∀ n, Ek !! n = lookup_after n (lines 13 (k - 1) riot_c2rust_h) (E13 !! n).
Proof.
  intros Hk. unfold env_at_line.
  destruct (riot_c2rust_h_segments k Hk) as [-> Hlocal].
  change (parse_header (take (12 - 1) riot_c2rust_h)) with (lines 1 11 riot_c2rust_h).
  apply exec_include_local, Hlocal.
Qed.

Lemma c2rust_final E0 E' :
  preprocess included riot_c2rust_h E0 = Some E' →
  ∃ E23, env_at_line included 23 riot_c2rust_h E0 = Some E23 ∧
         included Quoted "riot-headers.h" E23 = Some E'.
Proof.
  unfold preprocess, env_at_line. rewrite riot_c2rust_h_last.
  apply exec_snoc_include.
Qed.

End HeaderRuns.

(** ** Macro expansion *)

Section ExpandFacts.

Import Expand.

Variable E : macro_env.

Lemma plain_app x y : plain (x ++ y) = (plain x ++ plain y)%list.
Proof. apply map_app. Qed.

Lemma erase_hsadd hs ps : erase (hsadd hs ps) = erase ps.
Proof. unfold erase, hsadd. rewrite map_map. reflexivity. Qed.

Lemma erase_plain x : erase (plain x) = x.
Proof. unfold erase, plain. rewrite map_map. apply map_id. Qed.

(** One well-formed argument is read whole. *)
Lemma collect_args_argument d x cur acc ts :
  balanced_from d x = true →
  collect_args d cur acc (plain x ++ ts)%list
  = collect_args 0 (cur ++ plain x)%list acc ts.
Proof.
  revert d cur. induction x as [|t x IH]; intros d cur Hx; simpl in *.
  - apply Nat.eqb_eq in Hx as ->. by rewrite app_nil_r.
  - destruct (t =? ")") eqn:Hclose.
    { destruct d as [|d]; [done|].
      rewrite IH by done. by rewrite <-app_assoc. }
    destruct (t =? "(") eqn:Hopen.
    { rewrite IH by done. by rewrite <-app_assoc. }
    destruct ((t =? ",") && (d =? 0)%nat) eqn:Hcomma; [done|].
    rewrite IH by done. by rewrite <-app_assoc.
Qed.

(** Tokens that name no macro expand to themselves. *)
Lemma expand_no_macro ts (f : nat) :
  Forall (λ p, E !! tok p = None) ts → (length ts < f)%nat →
  expand f E ts = Some ts.
Proof.
  revert f. induction ts as [|p ts IH]; intros f Hts Hf.
  - destruct f; [lia|done].
  - destruct f as [|f]; [simpl in Hf; lia|].
    apply Forall_cons in Hts as [Hp Hts]. simpl in Hf |- *.
    rewrite Hp, IH by (done || lia). by destruct (hidden _ _).
Qed.

Lemma subst_mono (ex ex' : list ptoken → option (list ptoken)) ps args body r :
  (∀ a r, ex a = Some r → ex' a = Some r) →
  subst ex ps args body = Some r → subst ex' ps args body = Some r.
Proof.
  intros Hex. revert r. induction body as [|t body IH]; intros r; simpl; [done|].
  destruct (param_arg ps args t) as [a|].
  - destruct (ex a) as [a'|] eqn:Ha; simpl; [|done].
    rewrite (Hex _ _ Ha). simpl.
    destruct (subst ex ps args body) as [rest|]; simpl; [|done].
    by rewrite (IH rest).
  - destruct (subst ex ps args body) as [rest|]; simpl; [|done].
    by rewrite (IH rest).
Qed.

(** More fuel does not change a result. *)
Lemma expand_mono (f f' : nat) ts r :
  (f ≤ f')%nat → expand f E ts = Some r → expand f' E ts = Some r.
Proof.
  revert f' ts r. induction f as [|f IH]; intros f' ts r Hle H; [done|].
  destruct f' as [|f']; [lia|]. assert (Hle' : (f ≤ f')%nat) by lia.
  simpl in *. destruct ts as [|p rest]; [done|].
  assert (Hskip : ∀ r, (p ::.) <$> expand f E rest = Some r →
                       (p ::.) <$> expand f' E rest = Some r).
  { intros r0 Hr0. destruct (expand f E rest) as [r1|] eqn:Hr1; [|done].
    by rewrite (IH f' rest r1). }
  destruct (hidden (tok p) (hide p)); [by apply Hskip|].
  destruct (E !! tok p) as [m|]; [|by apply Hskip].
  destruct (supported m); [|done].
  destruct (macro_params m) as [ps|]; [|by apply (IH f')].
  destruct rest as [|q rest']; [done|].
  destruct (tok q =? "("); [|by apply Hskip].
  destruct (collect_args 0 [] [] rest') as [[[args hs] after]|]; simpl in *; [|done].
  destruct (length ps =? length (actuals ps args))%nat; [|done].
  destruct (subst (expand f E) ps (actuals ps args) (macro_body m)) as [body|] eqn:Hbody;
    simpl in *; [|done].
  rewrite (subst_mono _ (expand f' E) _ _ _ _ (λ a r, IH f' a r Hle') Hbody). simpl.
  by apply (IH f').
Qed.

(** A macro whose replacement list is its one parameter: its invocation
    expands to what the argument expands to, when nothing in that is left
    to expand. *)
Lemma expand_parameter_macro name x (fuel fuel' : nat) r :
  E !! name = Some (Macro (Some ["x"]) ["x"]) →
  single_argument x = true →
  expand fuel E (plain x) = Some r →
  Forall (λ p, E !! tok p = None) r →
  (fuel < fuel')%nat → (length r + 2 ≤ fuel')%nat →
  expand fuel' E (invocation name x) = Some (hsadd [name] r).
Proof.
  intros Hm Hx Hr Hfinal Hfuel Hlen.
  destruct fuel' as [|f]; [lia|].
  unfold invocation.
  change (plain (name :: "(" :: x ++ [")"]))
    with (PTok name [] :: PTok "(" [] :: plain (x ++ [")"])).
  cbn [expand tok hide hidden existsb]. rewrite Hm.
  change (supported (Macro (Some ["x"]) ["x"])) with true.
  cbn [macro_params macro_body].
  change (tok (PTok "(" []) =? "(") with true. cbn match.
  rewrite plain_app, collect_args_argument by exact Hx.
  cbn [plain map collect_args tok hide app mbind option_bind].
  change (")" =? ")") with true. cbn match. cbn [mbind option_bind].
  cbn [actuals length Nat.eqb subst param_arg].
  change ("x" =? "x") with true. cbn match.
  rewrite (expand_mono fuel f (plain x) r) by (lia || done).
  cbn [mbind option_bind filter]. rewrite !app_nil_r.
  apply expand_no_macro.
  - unfold hsadd. rewrite Forall_fmap. eapply Forall_impl; [exact Hfinal|]. done.
  - unfold hsadd. rewrite length_map. lia.
Qed.

(** A comma outside parentheses makes two arguments, which a macro of one
    parameter does not take. *)
Lemma expand_two_arguments name v body a b (fuel : nat) :
  E !! name = Some (Macro (Some [v]) body) →
  single_argument a = true → single_argument b = true →
  expand fuel E (plain (name :: "(" :: a ++ "," :: b ++ [")"])) = None.
Proof.
  intros Hm Ha Hb. destruct fuel as [|f]; [done|].
  change (plain (name :: "(" :: a ++ "," :: b ++ [")"]))
    with (PTok name [] :: PTok "(" [] :: plain (a ++ "," :: b ++ [")"])).
  cbn [expand tok hide hidden existsb]. rewrite Hm.
  destruct (supported (Macro (Some [v]) body)); [|done].
  cbn [macro_params macro_body].
  change (tok (PTok "(" []) =? "(") with true. cbn match.
  rewrite plain_app, collect_args_argument by exact Ha.
  change (plain ("," :: b ++ [")"])) with (PTok "," [] :: plain (b ++ [")"])).
  cbn [collect_args tok hide app].
  change ("," =? ")") with false. change ("," =? "(") with false.
  change ("," =? ",") with true. cbn [andb Nat.eqb]. cbn match.
  rewrite plain_app, collect_args_argument by exact Hb.
  cbn [plain map collect_args tok hide app mbind option_bind].
  change (")" =? ")") with true. cbn match. cbn [mbind option_bind].
  reflexivity.
Qed.

End ExpandFacts.

(** The macro table [rmutex.h] is included with. *)
Lemma c2rust_table_at_rmutex included E0 :
  env_at_line included 12 riot_c2rust_h E0 = Some (atomic_workaround E0).
Proof.
  unfold env_at_line.
  replace (parse_header (take (12 - 1) riot_c2rust_h)) with
    [Blank; Blank; Blank; Blank; Blank; Blank;
     PDefine "__CLANG_STDATOMIC_H" (object_like []);
     PDefine "_STDATOMIC_H" (object_like []);
     PDefine "_STDATOMIC_H_" (object_like []);
     PDefine "ATOMIC_VAR_INIT" (Macro (Some ["x"]) ["x"]);
     PDefine "atomic_int_least16_t" (object_like ["int_least16_t"])]
    by (vm_compute; reflexivity).
  reflexivity.
Qed.

(** ** The integer limits of [riot-bindgen.h] *)

(** C3: when [riot-bindgen.h] includes [riot-headers.h] (line 6), whatever
    the macro table it started from, UINT16_MAX is the constant [0xffff],
    whose value is 65535 = 2^16 - 1, and UINT32_MAX is the constant
    [0xffffffff], whose value is 4294967295 = 2^32 - 1. *)
Theorem bindgen_integer_limits included E0 :
  ∃ E6, env_at_line included 6 riot_bindgen_h E0 = Some E6 ∧
    E6 !! "UINT16_MAX" = Some (object_like ["0xffff"]) ∧
    E6 !! "UINT32_MAX" = Some (object_like ["0xffffffff"]) ∧
    macro_constant E6 "UINT16_MAX" = Some 65535%Z ∧
    macro_constant E6 "UINT32_MAX" = Some 4294967295%Z ∧
    (65535 = 2 ^ 16 - 1)%Z ∧ (4294967295 = 2 ^ 32 - 1)%Z.
Proof.
  destruct (bindgen_at_riot_headers included E0) as (E6 & H6 & Hlook).
  exists E6. split; [exact H6|].
  assert (H16 : E6 !! "UINT16_MAX" = Some (object_like ["0xffff"])) by read_off Hlook.
  assert (H32 : E6 !! "UINT32_MAX" = Some (object_like ["0xffffffff"])) by read_off Hlook.
  unfold macro_constant. rewrite H16, H32.
  repeat split; vm_compute; reflexivity.
Qed.

(** ** The atomic workaround of [riot-c2rust.h] *)

(** C8, as stated, fails: in the macro table [rmutex.h] is included with
    (here from the empty table), ATOMIC_VAR_INIT(atomic_int_least16_t)
    expands to int_least16_t, not to its argument: the argument is
    macro-expanded before it replaces the parameter. *)
Lemma ATOMIC_VAR_INIT_expands_its_argument :
  env_at_line inert_includes 12 riot_c2rust_h ∅ = Some (atomic_workaround ∅) ∧
  Expand.erase <$> Expand.expand 5 (atomic_workaround ∅)
      (Expand.invocation "ATOMIC_VAR_INIT" ["atomic_int_least16_t"])
    = Some ["int_least16_t"] ∧
  ¬ identity_macro (atomic_workaround ∅) "ATOMIC_VAR_INIT".
Proof.
  assert (Hexp : Expand.expand 5 (atomic_workaround ∅)
            (Expand.invocation "ATOMIC_VAR_INIT" ["atomic_int_least16_t"])
          = Some [Expand.PTok "int_least16_t" ["ATOMIC_VAR_INIT"; "atomic_int_least16_t"]])
    by (vm_compute; reflexivity).
  split; [apply c2rust_table_at_rmutex|].
  split; [rewrite Hexp; reflexivity|].
  intros Hid.
  specialize (Hid ["atomic_int_least16_t"] _ _ eq_refl Hexp). discriminate.
Qed.

(** C8, amended: when [riot-c2rust.h] includes [rmutex.h] (line 12),
    ATOMIC_VAR_INIT is a function-like macro whose replacement list is its
    one parameter.  Invoked on a single argument [x], it expands to what [x]
    itself expands to, whenever that names no further macro; so it expands
    to [x] when [x] names no macro at all. *)
Theorem ATOMIC_VAR_INIT_expands_to_its_argument included E0 E12 x :
  env_at_line included 12 riot_c2rust_h E0 = Some E12 →
  Expand.single_argument x = true →
  E12 !! "ATOMIC_VAR_INIT" = Some (Macro (Some ["x"]) ["x"]) ∧
  (∀ (fuel fuel' : nat) r,
     Expand.expand fuel E12 (Expand.plain x) = Some r →
     Forall (λ p, E12 !! Expand.tok p = None) r →
     (fuel < fuel')%nat → (length r + 2 ≤ fuel')%nat →
     Expand.erase <$> Expand.expand fuel' E12 (Expand.invocation "ATOMIC_VAR_INIT" x)
       = Some (Expand.erase r)) ∧
  (Forall (λ t, E12 !! t = None) x →
   ∀ fuel' : nat, (length x + 2 ≤ fuel')%nat →
     Expand.erase <$> Expand.expand fuel' E12 (Expand.invocation "ATOMIC_VAR_INIT" x)
       = Some x).
Proof.
  intros H12 Hx.
  destruct (c2rust_at_rmutex included E0) as (E12' & H12' & Hlook).
  assert (E12' = E12) as -> by congruence.
  assert (Hm : E12 !! "ATOMIC_VAR_INIT" = Some (Macro (Some ["x"]) ["x"]))
    by read_off Hlook.
  split; [exact Hm|].
  assert (Hgen : ∀ (fuel fuel' : nat) r,
     Expand.expand fuel E12 (Expand.plain x) = Some r →
     Forall (λ p, E12 !! Expand.tok p = None) r →
     (fuel < fuel')%nat → (length r + 2 ≤ fuel')%nat →
     Expand.erase <$> Expand.expand fuel' E12 (Expand.invocation "ATOMIC_VAR_INIT" x)
       = Some (Expand.erase r)).
  { intros fuel fuel' r Hr Hfinal Hfuel Hlen.
    rewrite (expand_parameter_macro E12 "ATOMIC_VAR_INIT" x fuel fuel' r
               Hm Hx Hr Hfinal Hfuel Hlen).
    simpl. by rewrite erase_hsadd. }
  split; [exact Hgen|].
  intros Hplain fuel' Hfuel.
  rewrite (Hgen (S (length x)) fuel' (Expand.plain x)).
  - by rewrite erase_plain.
  - apply expand_no_macro; [|unfold Expand.plain; rewrite length_map; lia].
    unfold Expand.plain. rewrite Forall_fmap.
    eapply Forall_impl; [exact Hplain|]. done.
  - unfold Expand.plain. rewrite Forall_fmap.
    eapply Forall_impl; [exact Hplain|]. done.
  - lia.
  - unfold Expand.plain. rewrite length_map. lia.
Qed.

Lemma ATOMIC_VAR_INIT_expands_to_its_argument_witness :
  env_at_line inert_includes 12 riot_c2rust_h predefined
    = Some (atomic_workaround predefined) ∧
  Expand.erase <$> Expand.expand 6 (atomic_workaround predefined)
      (Expand.invocation "ATOMIC_VAR_INIT" ["atomic_int_least16_t"])
    = Some ["int_least16_t"] ∧
  Expand.erase <$> Expand.expand 6 (atomic_workaround predefined)
      (Expand.invocation "ATOMIC_VAR_INIT" ["{"; "0"; "}"])
    = Some ["{"; "0"; "}"].
Proof.
  assert (H12 : env_at_line inert_includes 12 riot_c2rust_h predefined
                = Some (atomic_workaround predefined))
    by apply c2rust_table_at_rmutex.
  split; [exact H12|]. split.
  - refine (proj1 (proj2 (ATOMIC_VAR_INIT_expands_to_its_argument inert_includes
                            predefined _ ["atomic_int_least16_t"] H12 eq_refl))
              3%nat 6%nat [Expand.PTok "int_least16_t" ["atomic_int_least16_t"]] _ _ _ _).
    + vm_compute; reflexivity.
    + apply List.Forall_cons; [vm_compute; reflexivity|apply List.Forall_nil].
    + lia.
    + simpl; lia.
  - refine (proj2 (proj2 (ATOMIC_VAR_INIT_expands_to_its_argument inert_includes
                            predefined _ ["{"; "0"; "}"] H12 eq_refl)) _ 6%nat _).
    + repeat (apply List.Forall_cons; [vm_compute; reflexivity|]). apply List.Forall_nil.
    + simpl; lia.
Defined.

(** C2, amended: once the inclusion of [rmutex.h] and the five [#undef] lines after
    it (lines 13-17) have completed, each of the five names defined on lines
    7-11 is undefined, whatever the included file did; for each of these
    names this is the state before the header exactly when the name was not
    defined then. *)
Theorem c2rust_cleanup_undefines included E0 E18 :
  env_at_line included 18 riot_c2rust_h E0 = Some E18 →
  defined_names (lines 1 11 riot_c2rust_h) = atomic_workaround_names ∧
  Forall (λ n, n ∈ undefined_names (lines 13 17 riot_c2rust_h)) atomic_workaround_names ∧
  Forall (λ n, E18 !! n = None) atomic_workaround_names ∧
  Forall (λ n, E18 !! n = E0 !! n ↔ E0 !! n = None) atomic_workaround_names.
Proof.
  intros H18.
  apply c2rust_after_rmutex in H18 as (E12 & E13 & _ & _ & Hlook); [|lia].
  assert (Hnone : Forall (λ n, E18 !! n = None) atomic_workaround_names).
  { repeat (apply List.Forall_cons; [read_off Hlook|]). apply List.Forall_nil. }
  split; [vm_compute; reflexivity|].
  split; [by_decide|].
  split; [exact Hnone|].
  eapply Forall_impl; [exact Hnone|]. intros n Hn. simpl. rewrite Hn.
  split; intros; congruence.
Qed.

Lemma c2rust_cleanup_undefines_witness :
  env_at_line inert_includes 18 riot_c2rust_h predefined = Some predefined ∧
  Forall (λ n, predefined !! n = None) atomic_workaround_names.
Proof.
  split; [vm_compute; reflexivity|].
  apply (c2rust_cleanup_undefines inert_includes predefined predefined).
  vm_compute; reflexivity.
Defined.

(** C2, as stated, fails: started from a macro table in which _STDATOMIC_H
    is already defined, the header reaches line 18 with _STDATOMIC_H
    undefined: the earlier definition is not brought back. *)
Lemma cleanup_drops_earlier_definitions :
  ¬ cleanup_restores_prior_state inert_includes.
Proof.
  intros Hrestores.
  assert (Hrun : env_at_line inert_includes 18 riot_c2rust_h
                   (<["_STDATOMIC_H" := object_like []]> predefined) = Some predefined)
    by (vm_compute; reflexivity).
  apply Hrestores in Hrun. rewrite Forall_forall in Hrun.
  destruct (Hrun "_STDATOMIC_H" ltac:(by right; left)) as [Hnone Hprior].
  rewrite Hnone, lookup_insert_eq in Hprior. discriminate.
Qed.

(** C4: each of the three stdatomic.h guards is defined on lines 7-9,
    before the inclusion of [rmutex.h], and undefined on lines 13-15, after
    it.  So a header under one of these guards is skipped whole when it is
    included at line 12, and has its contents processed when it is included
    at line 23, where [riot-headers.h] is included. *)
Theorem stdatomic_bypassed_for_rmutex_only included contents g E0 E23 :
  g ∈ stdatomic_guards →
  env_at_line included 23 riot_c2rust_h E0 = Some E23 →
  g ∈ defined_names (lines 7 9 riot_c2rust_h) ∧
  g ∈ undefined_names (lines 13 15 riot_c2rust_h) ∧
  line 12 riot_c2rust_h = Some (PInclude Angle "rmutex.h") ∧
  line 23 riot_c2rust_h = Some (PInclude Quoted "riot-headers.h") ∧
  (∃ E12, env_at_line included 12 riot_c2rust_h E0 = Some E12 ∧
     E12 !! g = Some (object_like []) ∧
     guarded_header g contents E12 = Some E12) ∧
  E23 !! g = None ∧
  guarded_header g contents E23 = contents (<[g := object_like []]> E23).
Proof.
  intros Hg H23.
  apply c2rust_after_rmutex in H23 as (E12 & E13 & H12 & _ & Hlook23); [|lia].
  destruct (c2rust_at_rmutex included E0) as (E12' & H12' & Hlook12).
  assert (E12' = E12) as -> by congruence.
  assert (Hall : Forall (λ g,
            g ∈ defined_names (lines 7 9 riot_c2rust_h) ∧
            g ∈ undefined_names (lines 13 15 riot_c2rust_h) ∧
            E12 !! g = Some (object_like []) ∧ E23 !! g = None) stdatomic_guards).
  { repeat (apply List.Forall_cons;
      [split; [by_decide|]; split; [by_decide|]; split;
         [read_off Hlook12 | read_off Hlook23]|]).
    apply List.Forall_nil. }
  rewrite Forall_forall in Hall. destruct (Hall g Hg) as (Hd & Hu & Hg12 & Hg23).
  split; [exact Hd|]. split; [exact Hu|].
  split; [vm_compute; reflexivity|]. split; [vm_compute; reflexivity|].
  split.
  - exists E12. split; [exact H12|]. split; [exact Hg12|].
    unfold guarded_header, defined. by rewrite Hg12, bool_decide_eq_true_2.
  - split; [exact Hg23|].
    unfold guarded_header, defined. rewrite Hg23, bool_decide_eq_false_2; [done|].
    by intros [? ?].
Qed.

Lemma stdatomic_bypassed_for_rmutex_only_witness :
  env_at_line inert_includes 23 riot_c2rust_h predefined
    = Some (<["IS_C2RUST" := object_like []]> predefined) ∧
  guarded_header "_STDATOMIC_H" (λ E, Some (<["ATOMIC_FLAG_INIT" := object_like []]> E))
      (<["IS_C2RUST" := object_like []]> predefined)
    = Some (<["ATOMIC_FLAG_INIT" := object_like []]>
             (<["_STDATOMIC_H" := object_like []]>
               (<["IS_C2RUST" := object_like []]> predefined))).
Proof.
  split; [vm_compute; reflexivity|].
  apply (stdatomic_bypassed_for_rmutex_only inert_includes
           (λ E, Some (<["ATOMIC_FLAG_INIT" := object_like []]> E))
           "_STDATOMIC_H" predefined).
  - by_decide.
  - vm_compute; reflexivity.
Defined.

(** C6: line 11, immediately before the inclusion of [rmutex.h] on line 12,
    defines atomic_int_least16_t as an object-like macro expanding to
    int_least16_t, so it stands for int_least16_t when [rmutex.h] is
    included; the lines between the inclusion and line 17 are [#undef]s
    only, and line 17 undefines it: after the cleanup, and when
    [riot-headers.h] is included, the name stands for itself. *)
Theorem atomic_int_least16_t_aliased_for_rmutex included E0 E18 :
  env_at_line included 18 riot_c2rust_h E0 = Some E18 →
  line 11 riot_c2rust_h
    = Some (PDefine "atomic_int_least16_t" (object_like ["int_least16_t"])) ∧
  line 12 riot_c2rust_h = Some (PInclude Angle "rmutex.h") ∧
  forallb is_undef (lines 13 17 riot_c2rust_h) = true ∧
  line 17 riot_c2rust_h = Some (PUndef "atomic_int_least16_t") ∧
  (∃ E12, env_at_line included 12 riot_c2rust_h E0 = Some E12 ∧
     E12 !! "atomic_int_least16_t" = Some (object_like ["int_least16_t"]) ∧
     Expand.replace_identifier E12 "atomic_int_least16_t" = ["int_least16_t"]) ∧
  E18 !! "atomic_int_least16_t" = None ∧
  Expand.replace_identifier E18 "atomic_int_least16_t" = ["atomic_int_least16_t"] ∧
  (∀ E23, env_at_line included 23 riot_c2rust_h E0 = Some E23 →
     E23 !! "atomic_int_least16_t" = None).
Proof.
  intros H18.
  apply c2rust_after_rmutex in H18 as (E12 & E13 & H12 & _ & Hlook18); [|lia].
  destruct (c2rust_at_rmutex included E0) as (E12' & H12' & Hlook12).
  assert (E12' = E12) as -> by congruence.
  assert (Hin : E12 !! "atomic_int_least16_t" = Some (object_like ["int_least16_t"]))
    by read_off Hlook12.
  assert (Hout : E18 !! "atomic_int_least16_t" = None) by read_off Hlook18.
  repeat (split; [vm_compute; reflexivity|]).
  split.
  { exists E12. split; [exact H12|]. split; [exact Hin|].
    unfold Expand.replace_identifier. by rewrite Hin. }
  split; [exact Hout|].
  split; [unfold Expand.replace_identifier; by rewrite Hout|].
  intros E23 H23.
  apply c2rust_after_rmutex in H23 as (? & E13' & _ & _ & Hlook23); [|lia].
  read_off Hlook23.
Qed.

Lemma atomic_int_least16_t_aliased_for_rmutex_witness :
  env_at_line inert_includes 18 riot_c2rust_h predefined = Some predefined ∧
  predefined !! "atomic_int_least16_t" = None ∧
  Expand.replace_identifier predefined "atomic_int_least16_t" = ["atomic_int_least16_t"].
Proof.
  assert (Hrun : env_at_line inert_includes 18 riot_c2rust_h predefined = Some predefined)
    by (vm_compute; reflexivity).
  destruct (atomic_int_least16_t_aliased_for_rmutex inert_includes predefined predefined Hrun)
    as (_ & _ & _ & _ & _ & Hnone & Hself & _).
  exact (conj Hrun (conj Hnone Hself)).
Defined.

(** C10: when [riot-c2rust.h] includes [riot-headers.h] (line 23), none of
    the five atomic workaround names is defined and IS_C2RUST is defined as
    an empty object-like macro, whatever [rmutex.h] did; the header's only
    other inclusion is that of [rmutex.h] on line 12, where all five names
    are defined. *)
Theorem riot_headers_sees_no_atomic_workaround included E0 E23 :
  env_at_line included 23 riot_c2rust_h E0 = Some E23 →
  line 23 riot_c2rust_h = Some (PInclude Quoted "riot-headers.h") ∧
  included_files (parse_header riot_c2rust_h)
    = [(Angle, "rmutex.h"); (Quoted, "riot-headers.h")] ∧
  Forall (λ n, E23 !! n = None) atomic_workaround_names ∧
  E23 !! "IS_C2RUST" = Some (object_like []) ∧
  ∃ E12, env_at_line included 12 riot_c2rust_h E0 = Some E12 ∧
         Forall (λ n, is_Some (E12 !! n)) atomic_workaround_names.
Proof.
  intros H23.
  apply c2rust_after_rmutex in H23 as (E12 & E13 & H12 & _ & Hlook23); [|lia].
  destruct (c2rust_at_rmutex included E0) as (E12' & H12' & Hlook12).
  assert (E12' = E12) as -> by congruence.
  split; [vm_compute; reflexivity|]. split; [vm_compute; reflexivity|].
  split.
  { repeat (apply List.Forall_cons; [read_off Hlook23|]). apply List.Forall_nil. }
  split; [read_off Hlook23|].
  exists E12. split; [exact H12|].
  repeat (apply List.Forall_cons; [eexists; read_off Hlook12|]). apply List.Forall_nil.
Qed.

Lemma riot_headers_sees_no_atomic_workaround_witness :
  env_at_line inert_includes 23 riot_c2rust_h predefined
    = Some (<["IS_C2RUST" := object_like []]> predefined) ∧
  Forall (λ n, (<["IS_C2RUST" := object_like []]> predefined) !! n = None)
    atomic_workaround_names.
Proof.
  assert (Hrun : env_at_line inert_includes 23 riot_c2rust_h predefined
                 = Some (<["IS_C2RUST" := object_like []]> predefined))
    by (vm_compute; reflexivity).
  destruct (riot_headers_sees_no_atomic_workaround inert_includes predefined _ Hrun)
    as (_ & _ & Hnone & _).
  exact (conj Hrun Hnone).
Defined.

(** ** The opt-out marker *)

(** C5: line 21 of [riot-c2rust.h] defines IS_C2RUST, so it is defined when
    the header includes [riot-headers.h] on line 23; [riot-bindgen.h]
    defines no such name and reaches its own inclusion of [riot-headers.h]
    (line 6) with IS_C2RUST as it found it.  Started from a macro table
    without IS_C2RUST, the two headers therefore hand [riot-headers.h]
    tables that differ on IS_C2RUST. *)
Theorem IS_C2RUST_marks_the_translator included E0 E23 :
  env_at_line included 23 riot_c2rust_h E0 = Some E23 →
  line 23 riot_c2rust_h = Some (PInclude Quoted "riot-headers.h") ∧
  line 6 riot_bindgen_h = Some (PInclude Quoted "riot-headers.h") ∧
  line 21 riot_c2rust_h = Some (PDefine "IS_C2RUST" (object_like [])) ∧
  ("IS_C2RUST" ∉ defined_names (parse_header riot_bindgen_h)) ∧
  E23 !! "IS_C2RUST" = Some (object_like []) ∧
  ∃ E6, env_at_line included 6 riot_bindgen_h E0 = Some E6 ∧
        E6 !! "IS_C2RUST" = E0 !! "IS_C2RUST" ∧
        (E0 !! "IS_C2RUST" = None →
           defined "IS_C2RUST" E23 = true ∧ defined "IS_C2RUST" E6 = false).
Proof.
  intros H23.
  apply c2rust_after_rmutex in H23 as (E12 & E13 & _ & _ & Hlook23); [|lia].
  destruct (bindgen_at_riot_headers included E0) as (E6 & H6 & Hlook6).
  assert (Hc : E23 !! "IS_C2RUST" = Some (object_like [])) by read_off Hlook23.
  assert (Hb : E6 !! "IS_C2RUST" = E0 !! "IS_C2RUST") by read_off Hlook6.
  repeat (split; [vm_compute; reflexivity|]).
  split; [by_decide|]. split; [exact Hc|].
  exists E6. split; [exact H6|]. split; [exact Hb|].
  intros H0. unfold defined. rewrite Hc, Hb, H0.
  split; [by apply bool_decide_eq_true_2|].
  apply bool_decide_eq_false_2. by intros [? ?].
Qed.

Lemma IS_C2RUST_marks_the_translator_witness :
  env_at_line inert_includes 23 riot_c2rust_h predefined
    = Some (<["IS_C2RUST" := object_like []]> predefined) ∧
  ∃ E6, env_at_line inert_includes 6 riot_bindgen_h predefined = Some E6 ∧
        defined "IS_C2RUST" (<["IS_C2RUST" := object_like []]> predefined) = true ∧
        defined "IS_C2RUST" E6 = false.
Proof.
  assert (Hrun : env_at_line inert_includes 23 riot_c2rust_h predefined
                 = Some (<["IS_C2RUST" := object_like []]> predefined))
    by (vm_compute; reflexivity).
  destruct (IS_C2RUST_marks_the_translator inert_includes predefined _ Hrun)
    as (_ & _ & _ & _ & _ & E6 & H6 & _ & Hdiff).
  split; [exact Hrun|]. exists E6. split; [exact H6|].
  apply Hdiff. vm_compute; reflexivity.
Defined.

(** C9: no line of [riot-c2rust.h] undefines IS_C2RUST: it is defined when
    the last line includes [riot-headers.h], and so it is still defined
    after the whole header, provided [riot-headers.h] does not undefine it
    itself. *)
Theorem IS_C2RUST_persists included E0 E' :
  keeps (included Quoted "riot-headers.h") "IS_C2RUST" →
  preprocess included riot_c2rust_h E0 = Some E' →
  ("IS_C2RUST" ∉ undefined_names (parse_header riot_c2rust_h)) ∧
  (∃ E23, env_at_line included 23 riot_c2rust_h E0 = Some E23 ∧
          E23 !! "IS_C2RUST" = Some (object_like []) ∧
          included Quoted "riot-headers.h" E23 = Some E') ∧
  is_Some (E' !! "IS_C2RUST").
Proof.
  intros Hkeeps Hrun.
  apply c2rust_final in Hrun as (E23 & H23 & Hlast).
  pose proof H23 as Hrun23.
  apply c2rust_after_rmutex in H23 as (E12 & E13 & _ & _ & Hlook23); [|lia].
  assert (Hc : E23 !! "IS_C2RUST" = Some (object_like [])) by read_off Hlook23.
  split; [by_decide|].
  split; [exists E23; split; [exact Hrun23|]; split; [exact Hc|exact Hlast]|].
  apply (Hkeeps E23 E' Hlast). by rewrite Hc.
Qed.

Lemma IS_C2RUST_persists_witness :
  preprocess inert_includes riot_c2rust_h predefined
    = Some (<["IS_C2RUST" := object_like []]> predefined) ∧
  is_Some ((<["IS_C2RUST" := object_like []]> predefined) !! "IS_C2RUST").
Proof.
  assert (Hrun : preprocess inert_includes riot_c2rust_h predefined
                 = Some (<["IS_C2RUST" := object_like []]> predefined))
    by (vm_compute; reflexivity).
  split; [exact Hrun|].
  refine (proj2 (proj2 (IS_C2RUST_persists inert_includes predefined _ _ Hrun))).
  intros E E2 [= <-] H. exact H.
Defined.

(** ** What is restored and what is not *)

(** C1, as stated, fails for both headers: run from the empty macro table
    with included files that change nothing, [riot-bindgen.h] ends with
    UINT16_MAX and UINT32_MAX still defined, and [riot-c2rust.h] ends with
    IS_C2RUST still defined. *)
Lemma headers_leave_macros_defined :
  ¬ restores_macro_state inert_includes riot_bindgen_h ∧
  ¬ restores_macro_state inert_includes riot_c2rust_h.
Proof.
  split; intros Hrestores.
  - assert (Hrun : preprocess inert_includes riot_bindgen_h ∅
                   = Some (<["UINT32_MAX" := object_like ["0xffffffff"]]>
                            {["UINT16_MAX" := object_like ["0xffff"]]}))
      by (vm_compute; reflexivity).
    apply Hrestores in Hrun. rewrite Forall_forall in Hrun.
    specialize (Hrun "UINT16_MAX"). revert Hrun. vm_compute.
    intros Hrun. by specialize (Hrun ltac:(by left)).
  - assert (Hrun : preprocess inert_includes riot_c2rust_h ∅
                   = Some {["IS_C2RUST" := object_like []]})
      by (vm_compute; reflexivity).
    apply Hrestores in Hrun. rewrite Forall_forall in Hrun.
    specialize (Hrun "IS_C2RUST"). revert Hrun. vm_compute.
    intros Hrun. by specialize (Hrun ltac:(by do 5 right; left)).
Qed.

(** C1, amended: in [riot-c2rust.h], once the inclusion of [rmutex.h] and
    the cleanup after it have completed, none of the names the header
    defined before that inclusion is defined.  The other definitions are not
    undone: [riot-bindgen.h] has no [#undef] at all and [riot-c2rust.h] has
    none for IS_C2RUST, so after the whole header UINT16_MAX and UINT32_MAX
    (respectively IS_C2RUST) are still defined unless [riot-headers.h]
    undefines them itself. *)
Theorem only_the_rmutex_bracket_is_restored included E0 :
  (∀ E18, env_at_line included 18 riot_c2rust_h E0 = Some E18 →
     Forall (λ n, E18 !! n = None) (defined_names (lines 1 17 riot_c2rust_h))) ∧
  undefined_names (parse_header riot_bindgen_h) = [] ∧
  ("IS_C2RUST" ∉ undefined_names (parse_header riot_c2rust_h)) ∧
  (∀ E', preprocess included riot_bindgen_h E0 = Some E' →
     Forall (λ n, keeps (included Quoted "riot-headers.h") n → is_Some (E' !! n))
       (defined_names (parse_header riot_bindgen_h))) ∧
  (∀ E', preprocess included riot_c2rust_h E0 = Some E' →
     keeps (included Quoted "riot-headers.h") "IS_C2RUST" → is_Some (E' !! "IS_C2RUST")).
Proof.
  split.
  { intros E18 H18.
    apply c2rust_after_rmutex in H18 as (E12 & E13 & _ & _ & Hlook); [|lia].
    change (defined_names (lines 1 17 riot_c2rust_h)) with atomic_workaround_names.
    repeat (apply List.Forall_cons; [read_off Hlook|]). apply List.Forall_nil. }
  split; [vm_compute; reflexivity|]. split; [by_decide|]. split.
  - intros E' Hrun. apply bindgen_final in Hrun as (E6 & H6 & Hlast).
    destruct (bindgen_at_riot_headers included E0) as (E6' & H6' & Hlook).
    assert (E6' = E6) as -> by congruence.
    change (defined_names (parse_header riot_bindgen_h))
      with ["UINT16_MAX"; "UINT32_MAX"].
    repeat (apply List.Forall_cons;
      [intros Hkeeps; apply (Hkeeps E6 E' Hlast); eexists; read_off Hlook|]).
    apply List.Forall_nil.
  - intros E' Hrun Hkeeps. apply c2rust_final in Hrun as (E23 & H23 & Hlast).
    apply c2rust_after_rmutex in H23 as (E12 & E13 & _ & _ & Hlook); [|lia].
    apply (Hkeeps E23 E' Hlast). eexists. read_off Hlook.
Qed.

Lemma only_the_rmutex_bracket_is_restored_witness :
  env_at_line inert_includes 18 riot_c2rust_h predefined = Some predefined ∧
  Forall (λ n, predefined !! n = None) (defined_names (lines 1 17 riot_c2rust_h)) ∧
  preprocess inert_includes riot_bindgen_h predefined
    = Some (<["UINT32_MAX" := object_like ["0xffffffff"]]>
             (<["UINT16_MAX" := object_like ["0xffff"]]> predefined)) ∧
  Forall (λ n, is_Some ((<["UINT32_MAX" := object_like ["0xffffffff"]]>
                          (<["UINT16_MAX" := object_like ["0xffff"]]> predefined)) !! n))
    (defined_names (parse_header riot_bindgen_h)).
Proof.
  assert (H18 : env_at_line inert_includes 18 riot_c2rust_h predefined = Some predefined)
    by (vm_compute; reflexivity).
  assert (Hb : preprocess inert_includes riot_bindgen_h predefined
               = Some (<["UINT32_MAX" := object_like ["0xffffffff"]]>
                        (<["UINT16_MAX" := object_like ["0xffff"]]> predefined)))
    by (vm_compute; reflexivity).
  destruct (only_the_rmutex_bracket_is_restored inert_includes predefined)
    as (Hbracket & _ & _ & Hlimits & _).
  split; [exact H18|]. split; [exact (Hbracket _ H18)|]. split; [exact Hb|].
  refine (Forall_impl _ _ _ (Hlimits _ Hb) _).
  intros n Hn. apply Hn. intros E E2 [= <-] H. exact H.
Defined.

(** ** The shape of the headers *)

(** C7, as stated, fails: [riot-c2rust.h] is not macro definitions, one
    inclusion and macro cleanup, since it has two inclusions, the second one
    after the cleanup and a further definition. *)
Lemma riot_c2rust_h_has_two_inclusions :
  ¬ Forall (λ text, brackets_single_inclusion (parse_header text) = true)
      [riot_bindgen_h; riot_c2rust_h]
  ∧ included_files (parse_header riot_c2rust_h)
      = [(Angle, "rmutex.h"); (Quoted, "riot-headers.h")].
Proof.
  split; [|vm_compute; reflexivity].
  intros H. rewrite Forall_forall in H.
  specialize (H riot_c2rust_h ltac:(by right; left)). revert H.
  vm_compute. discriminate.
Qed.

(** C7, amended: every line of either header is a comment, blank, or a
    [#define], [#undef] or [#include] directive, and processing a header is
    running its directives in their order.  [riot-bindgen.h] is two macro
    definitions followed by one inclusion, with no cleanup;
    [riot-c2rust.h] is five macro definitions, the inclusion of [rmutex.h]
    and five [#undef]s, followed by one more definition and a second
    inclusion. *)
Theorem headers_are_definitions_around_inclusions :
  Forall (λ text, forallb (λ l, is_local l || is_include l) (parse_header text) = true)
    [riot_bindgen_h; riot_c2rust_h] ∧
  (∀ included text E, preprocess included text E
                      = exec included (directives (parse_header text)) E) ∧
  directives (parse_header riot_bindgen_h) =
    [PDefine "UINT16_MAX" (object_like ["0xffff"]);
     PDefine "UINT32_MAX" (object_like ["0xffffffff"]);
     PInclude Quoted "riot-headers.h"] ∧
  directives (parse_header riot_c2rust_h) =
    [PDefine "__CLANG_STDATOMIC_H" (object_like []);
     PDefine "_STDATOMIC_H" (object_like []);
     PDefine "_STDATOMIC_H_" (object_like []);
     PDefine "ATOMIC_VAR_INIT" (Macro (Some ["x"]) ["x"]);
     PDefine "atomic_int_least16_t" (object_like ["int_least16_t"]);
     PInclude Angle "rmutex.h";
     PUndef "__CLANG_STDATOMIC_H";
     PUndef "_STDATOMIC_H_";
     PUndef "_STDATOMIC_H";
     PUndef "ATOMIC_VAR_INIT";
     PUndef "atomic_int_least16_t";
     PDefine "IS_C2RUST" (object_like []);
     PInclude Quoted "riot-headers.h"] ∧
  brackets_single_inclusion (parse_header riot_bindgen_h) = true ∧
  brackets_single_inclusion (lines 1 17 riot_c2rust_h) = true ∧
  directives (lines 18 23 riot_c2rust_h) =
    [PDefine "IS_C2RUST" (object_like []); PInclude Quoted "riot-headers.h"].
Proof.
  split.
  { repeat (apply List.Forall_cons; [vm_compute; reflexivity|]). apply List.Forall_nil. }
  split; [intros; apply exec_directives|].
  repeat split; vm_compute; reflexivity.
Qed.

(** * Further properties of the headers *)

(** ** Lines that include nothing *)

Lemma binding_of_bound n l r : binding_of n l = Some r → bound_name l = Some n.
Proof.
  destruct l as [|n' m|n'| |]; simpl; try done;
    destruct (String.eqb_spec n' n) as [->|]; done.
Qed.

Lemma binding_of_unbound n l : bound_name l ≠ Some n → binding_of n l = None.
Proof.
  intros H. destruct (binding_of n l) as [r|] eqn:Hb; [|done].
  by apply binding_of_bound in Hb.
Qed.

(** A name no line binds keeps its definition. *)
Lemma lookup_after_unbound n ls o :
  n ∉ bound_names ls → lookup_after n ls o = o.
Proof.
  revert o. induction ls as [|l ls IH]; intros o Hn; simpl; [done|].
  unfold bound_names in *. simpl in Hn.
  destruct (bound_name l) as [n'|] eqn:Hl.
  - apply not_elem_of_cons in Hn as [Hne Hn].
    rewrite binding_of_unbound by (rewrite Hl; congruence). simpl. by apply IH.
  - rewrite binding_of_unbound by (rewrite Hl; congruence). simpl. by apply IH.
Qed.

(** A name some line binds forgets the definition it started with. *)
Lemma lookup_after_bound n ls o o' :
  n ∈ bound_names ls → lookup_after n ls o = lookup_after n ls o'.
Proof.
  revert o o'. induction ls as [|l ls IH]; intros o o' Hn; simpl.
  - by apply elem_of_nil in Hn.
  - destruct (binding_of n l) as [r|] eqn:Hb; simpl; [done|].
    apply IH. unfold bound_names in *. simpl in Hn.
    destruct (bound_name l) as [n'|] eqn:Hl; [|done].
    apply elem_of_cons in Hn as [->|Hn]; [|done].
    destruct l as [|n'' m|n''| |]; simpl in *; try done; simplify_eq;
      by rewrite String.eqb_refl in Hb.
Qed.

(** Lines that bind different names may be run in any order. *)
Lemma lookup_after_perm n ls ls' o :
  ls ≡ₚ ls' → NoDup (bound_names ls) →
  lookup_after n ls o = lookup_after n ls' o.
Proof.
  intros Hperm. revert o.
  induction Hperm as [|l ls ls' _ IH|l1 l2 ls|ls1 ls2 ls3 H12 IH12 H23 IH23];
    intros o Hnodup; simpl.
  - done.
  - apply IH. unfold bound_names in *. simpl in Hnodup.
    destruct (bound_name l); [by apply NoDup_cons in Hnodup as [_ ?]|done].
  - f_equal.
    destruct (binding_of n l1) as [r1|] eqn:H1, (binding_of n l2) as [r2|] eqn:H2;
      simpl; try done.
    apply binding_of_bound in H1, H2. unfold bound_names in Hnodup. simpl in Hnodup.
    rewrite H1, H2 in Hnodup. apply NoDup_cons in Hnodup as [Hnotin _].
    exfalso. apply Hnotin. by left.
  - rewrite IH12 by done. apply IH23.
    unfold bound_names in *. by rewrite <-H12.
Qed.

Section LocalLines.

Variable included : include_form → string → macro_env → option macro_env.

(** Running lines that include nothing from two tables that differ only on
    names the lines bind gives the same table. *)
Lemma exec_local_agree ls E E' :
  forallb is_local ls = true →
  (∀ n, n ∉ bound_names ls → E !! n = E' !! n) →
  exec included ls E = exec included ls E'.
Proof.
  intros Hlocal Hagree.
  destruct (exec_local included ls E Hlocal) as (E1 & -> & H1).
  destruct (exec_local included ls E' Hlocal) as (E1' & -> & H1').
  f_equal. apply map_eq. intros n. rewrite H1, H1'.
  destruct (decide (n ∈ bound_names ls)) as [Hin|Hnotin].
  - by apply lookup_after_bound.
  - by rewrite (Hagree n Hnotin).
Qed.

Lemma exec_local_perm ls ls' E :
  forallb is_local ls = true → NoDup (bound_names ls) → ls ≡ₚ ls' →
  exec included ls E = exec included ls' E.
Proof.
  intros Hlocal Hnodup Hperm.
  assert (Hlocal' : forallb is_local ls' = true).
  { rewrite forallb_forall in Hlocal |- *. intros l Hl. apply Hlocal.
    eapply Permutation_in; [symmetry; exact Hperm|exact Hl]. }
  destruct (exec_local included ls E Hlocal) as (E1 & -> & H1).
  destruct (exec_local included ls' E Hlocal') as (E1' & -> & H1').
  f_equal. apply map_eq. intros n. rewrite H1, H1'.
  by apply lookup_after_perm.
Qed.

End LocalLines.

(** ** What each header amounts to *)

(** X1: processing [riot-bindgen.h] from any macro table is including
    [riot-headers.h] in that table with UINT16_MAX and UINT32_MAX set to the
    header's constants: the result is what the inclusion returns (line 7
    adds nothing), and the header fails exactly when the inclusion does. *)
Theorem riot_bindgen_h_composes included E0 :
  preprocess included riot_bindgen_h E0 =
    included Quoted "riot-headers.h"
      (<["UINT32_MAX" := object_like ["0xffffffff"]]>
        (<["UINT16_MAX" := object_like ["0xffff"]]> E0)).
Proof.
  unfold preprocess.
  replace (parse_header riot_bindgen_h) with
    [Blank; Blank;
     PDefine "UINT16_MAX" (object_like ["0xffff"]);
     PDefine "UINT32_MAX" (object_like ["0xffffffff"]);
     Blank; PInclude Quoted "riot-headers.h"; Blank]
    by (vm_compute; reflexivity).
  cbn [exec exec_line mbind option_bind].
  match goal with
  | |- context [included Quoted "riot-headers.h" ?E] =>
      by destruct (included Quoted "riot-headers.h" E)
  end.
Qed.

(** X2: processing [riot-c2rust.h] from any macro table is including
    [rmutex.h] in that table with the five workaround macros set, then
    including [riot-headers.h] in the table [rmutex.h] returned, less the
    five names and with IS_C2RUST set; the result is what the second
    inclusion returns, and the header fails exactly when one of the two
    inclusions does. *)
Theorem riot_c2rust_h_composes included E0 :
  preprocess included riot_c2rust_h E0 =
    E13 ← included Angle "rmutex.h"
             (<["atomic_int_least16_t" := object_like ["int_least16_t"]]>
               (<["ATOMIC_VAR_INIT" := Macro (Some ["x"]) ["x"]]>
                 (<["_STDATOMIC_H_" := object_like []]>
                   (<["_STDATOMIC_H" := object_like []]>
                     (<["__CLANG_STDATOMIC_H" := object_like []]> E0)))));
    included Quoted "riot-headers.h"
      (<["IS_C2RUST" := object_like []]>
        (delete "atomic_int_least16_t"
          (delete "ATOMIC_VAR_INIT"
            (delete "_STDATOMIC_H"
              (delete "_STDATOMIC_H_"
                (delete "__CLANG_STDATOMIC_H" E13)))))).
Proof.
  unfold preprocess.
  replace (parse_header riot_c2rust_h) with
    [Blank; Blank; Blank; Blank; Blank; Blank;
     PDefine "__CLANG_STDATOMIC_H" (object_like []);
     PDefine "_STDATOMIC_H" (object_like []);
     PDefine "_STDATOMIC_H_" (object_like []);
     PDefine "ATOMIC_VAR_INIT" (Macro (Some ["x"]) ["x"]);
     PDefine "atomic_int_least16_t" (object_like ["int_least16_t"]);
     PInclude Angle "rmutex.h";
     PUndef "__CLANG_STDATOMIC_H"; PUndef "_STDATOMIC_H_"; PUndef "_STDATOMIC_H";
     PUndef "ATOMIC_VAR_INIT"; PUndef "atomic_int_least16_t";
     Blank; Blank; Blank;
     PDefine "IS_C2RUST" (object_like []);
     Blank; PInclude Quoted "riot-headers.h"]
    by (vm_compute; reflexivity).
  cbn [exec exec_line mbind option_bind].
  destruct (included Angle "rmutex.h" _) as [E13|]; [|done].
  cbn [exec exec_line mbind option_bind].
  match goal with
  | |- context [included Quoted "riot-headers.h" ?E] =>
      by destruct (included Quoted "riot-headers.h" E)
  end.
Qed.

(** ** Earlier definitions of the headers' names *)

Lemma env_at_line_beyond included (k : nat) text E :
  (length text < k)%nat →
  env_at_line included k text E = preprocess included text E.
Proof.
  intros Hk. unfold env_at_line, preprocess. by rewrite take_ge by lia.
Qed.

Lemma env_at_line_eq included (k : nat) text E :
  env_at_line included k text E = exec included (parse_header (take (k - 1) text)) E.
Proof. reflexivity. Qed.

Lemma preprocess_eq included text E :
  preprocess included text E = exec included (parse_header text) E.
Proof. reflexivity. Qed.

(** X3: [riot-bindgen.h] does not depend on earlier definitions of
    UINT16_MAX and UINT32_MAX: from two macro tables that differ on these
    two names only, it hands [riot-headers.h] the same table and gives the
    same result. *)
Theorem riot_bindgen_h_overrides_earlier_limits included E0 E0' :
  (∀ n, n ∉ ["UINT16_MAX"; "UINT32_MAX"] → E0 !! n = E0' !! n) →
  env_at_line included 6 riot_bindgen_h E0 = env_at_line included 6 riot_bindgen_h E0' ∧
  preprocess included riot_bindgen_h E0 = preprocess included riot_bindgen_h E0'.
Proof.
  intros Hagree.
  assert (H6 : exec included (lines 1 5 riot_bindgen_h) E0
               = exec included (lines 1 5 riot_bindgen_h) E0').
  { apply exec_local_agree; [vm_compute; reflexivity|].
    replace (bound_names (lines 1 5 riot_bindgen_h)) with ["UINT16_MAX"; "UINT32_MAX"]
      by (vm_compute; reflexivity).
    exact Hagree. }
  split.
  - rewrite !env_at_line_eq.
    change (parse_header (take (6 - 1) riot_bindgen_h)) with (lines 1 5 riot_bindgen_h).
    exact H6.
  - rewrite !preprocess_eq.
    rewrite riot_bindgen_h_segments, (exec_app included _ _ E0), (exec_app included _ _ E0').
    rewrite H6. reflexivity.
Qed.

Lemma riot_bindgen_h_overrides_earlier_limits_witness :
  preprocess sample_includes riot_bindgen_h predefined
  = preprocess sample_includes riot_bindgen_h
      (<["UINT16_MAX" := object_like ["65535U"]]> predefined).
Proof.
  apply (riot_bindgen_h_overrides_earlier_limits sample_includes predefined
           (<["UINT16_MAX" := object_like ["65535U"]]> predefined)).
  intros n Hn. rewrite lookup_insert_ne; [reflexivity|].
  intros <-. apply Hn. left.
Defined.

(** X4: [riot-c2rust.h] does not depend on earlier definitions of its five
    workaround names: from two macro tables that differ on these names only,
    every line from the inclusion of [rmutex.h] on is reached with the same
    table, and the header gives the same result. *)
Theorem riot_c2rust_h_overrides_earlier_definitions included E0 E0' (k : nat) :
  (∀ n, n ∉ atomic_workaround_names → E0 !! n = E0' !! n) →
  (12 ≤ k)%nat →
  env_at_line included k riot_c2rust_h E0 = env_at_line included k riot_c2rust_h E0' ∧
  preprocess included riot_c2rust_h E0 = preprocess included riot_c2rust_h E0'.
Proof.
  intros Hagree Hk.
  assert (H12 : exec included (lines 1 11 riot_c2rust_h) E0
                = exec included (lines 1 11 riot_c2rust_h) E0').
  { apply exec_local_agree; [vm_compute; reflexivity|].
    replace (bound_names (lines 1 11 riot_c2rust_h)) with atomic_workaround_names
      by (vm_compute; reflexivity).
    exact Hagree. }
  assert (Hmid : ∀ j : nat, (13 ≤ j ≤ 23)%nat →
            env_at_line included j riot_c2rust_h E0
            = env_at_line included j riot_c2rust_h E0').
  { intros j Hj. rewrite !env_at_line_eq.
    destruct (riot_c2rust_h_segments j Hj) as [-> _].
    rewrite (exec_app included _ _ E0), (exec_app included _ _ E0'), H12. reflexivity. }
  assert (Hall : preprocess included riot_c2rust_h E0
                 = preprocess included riot_c2rust_h E0').
  { rewrite !preprocess_eq.
    rewrite riot_c2rust_h_last, (exec_app included _ _ E0), (exec_app included _ _ E0').
    specialize (Hmid 23%nat ltac:(lia)). rewrite !env_at_line_eq in Hmid.
    rewrite Hmid. reflexivity. }
  split; [|exact Hall].
  destruct (decide (k = 12)) as [->|].
  { rewrite !env_at_line_eq.
    change (parse_header (take (12 - 1) riot_c2rust_h)) with (lines 1 11 riot_c2rust_h).
    exact H12. }
  destruct (decide (k ≤ 23)%nat).
  - apply Hmid. lia.
  - rewrite !env_at_line_beyond by (change (length riot_c2rust_h) with 23%nat; lia).
    exact Hall.
Qed.

Lemma riot_c2rust_h_overrides_earlier_definitions_witness :
  preprocess sample_includes riot_c2rust_h predefined
  = preprocess sample_includes riot_c2rust_h
      (<["ATOMIC_VAR_INIT" := Macro (Some ["v"]) ["{"; "v"; "}"]]> predefined).
Proof.
  refine (proj2 (riot_c2rust_h_overrides_earlier_definitions sample_includes predefined
                   (<["ATOMIC_VAR_INIT" := Macro (Some ["v"]) ["{"; "v"; "}"]]> predefined)
                   12 _ _)).
  - intros n Hn. rewrite lookup_insert_ne; [reflexivity|].
    intros <-. apply Hn. do 3 right. left.
  - lia.
Defined.

(** ** What passes through the cleanup *)

(** X5: [riot-c2rust.h] touches no macro but its own: a name that is none
    of the five workaround names (IS_C2RUST among them) reaches [rmutex.h]
    as the header found it, and, unless it is IS_C2RUST, reaches
    [riot-headers.h] as [rmutex.h] left it. *)
Theorem riot_c2rust_h_touches_only_its_names included E0 E23 n :
  n ∉ atomic_workaround_names →
  env_at_line included 23 riot_c2rust_h E0 = Some E23 →
  ∃ E12 E13,
    env_at_line included 12 riot_c2rust_h E0 = Some E12 ∧
    included Angle "rmutex.h" E12 = Some E13 ∧
    E12 !! n = E0 !! n ∧
    (n ≠ "IS_C2RUST" → E23 !! n = E13 !! n).
Proof.
  intros Hn H23.
  apply c2rust_after_rmutex in H23 as (E12 & E13 & H12 & Hinc & Hlook23); [|lia].
  destruct (c2rust_at_rmutex included E0) as (E12' & H12' & Hlook12).
  assert (E12' = E12) as -> by congruence.
  exists E12, E13. split; [exact H12|]. split; [exact Hinc|]. split.
  - rewrite Hlook12. apply lookup_after_unbound.
    replace (bound_names (lines 1 11 riot_c2rust_h)) with atomic_workaround_names
      by (vm_compute; reflexivity).
    exact Hn.
  - intros Hmarker. rewrite Hlook23. apply lookup_after_unbound.
    replace (bound_names (lines 13 (23 - 1) riot_c2rust_h))
      with (["__CLANG_STDATOMIC_H"; "_STDATOMIC_H_"; "_STDATOMIC_H"; "ATOMIC_VAR_INIT";
             "atomic_int_least16_t"] ++ ["IS_C2RUST"])%list
      by (vm_compute; reflexivity).
    rewrite elem_of_app, list_elem_of_singleton. intros [Hin|?]; [|done].
    apply Hn. revert Hin. unfold atomic_workaround_names.
    rewrite !elem_of_cons. tauto.
Qed.

Lemma riot_c2rust_h_touches_only_its_names_witness :
  ∃ E12 E13,
    env_at_line sample_includes 12 riot_c2rust_h predefined = Some E12 ∧
    sample_includes Angle "rmutex.h" E12 = Some E13 ∧
    E12 !! "RMUTEX_INIT" = predefined !! "RMUTEX_INIT" ∧
    ("RMUTEX_INIT" ≠ "IS_C2RUST" →
       (<["IS_C2RUST" := object_like []]>
         (<["RMUTEX_INIT" := object_like ["{"; "}"]]>
           (<["RMUTEX_H" := object_like []]> predefined))) !! "RMUTEX_INIT"
       = E13 !! "RMUTEX_INIT").
Proof.
  apply (riot_c2rust_h_touches_only_its_names sample_includes predefined).
  - by_decide.
  - vm_compute; reflexivity.
Defined.

(** X6: when [rmutex.h] is under an include guard of its own (any name but
    the five workaround names) and its contents do not undefine that guard,
    the guard is still defined when [riot-c2rust.h] includes
    [riot-headers.h], so a further inclusion of [rmutex.h] from there is
    skipped whole: [rmutex.h] is only ever processed under the workaround. *)
Theorem rmutex_h_is_not_processed_again included g contents E0 E23 :
  g ∉ atomic_workaround_names →
  keeps contents g →
  (∀ E, included Angle "rmutex.h" E = guarded_header g contents E) →
  env_at_line included 23 riot_c2rust_h E0 = Some E23 →
  is_Some (E23 !! g) ∧ guarded_header g contents E23 = Some E23.
Proof.
  intros Hg Hkeeps Hguarded H23.
  apply c2rust_after_rmutex in H23 as (E12 & E13 & H12 & Hinc & Hlook23); [|lia].
  assert (H13 : is_Some (E13 !! g)).
  { rewrite Hguarded in Hinc. unfold guarded_header, defined in Hinc.
    case_bool_decide as Hdef.
    - by simplify_eq.
    - apply (Hkeeps _ _ Hinc). by rewrite lookup_insert_eq. }
  assert (Hsome : is_Some (E23 !! g)).
  { rewrite Hlook23. destruct (decide (g = "IS_C2RUST")) as [->|Hmarker].
    - eexists. generalize (E13 !! "IS_C2RUST"). intros ?. vm_compute. reflexivity.
    - rewrite lookup_after_unbound; [exact H13|].
      replace (bound_names (lines 13 (23 - 1) riot_c2rust_h))
        with (["__CLANG_STDATOMIC_H"; "_STDATOMIC_H_"; "_STDATOMIC_H"; "ATOMIC_VAR_INIT";
               "atomic_int_least16_t"] ++ ["IS_C2RUST"])%list
        by (vm_compute; reflexivity).
      rewrite elem_of_app, list_elem_of_singleton. intros [Hin|?]; [|done].
      apply Hg. revert Hin. unfold atomic_workaround_names.
      rewrite !elem_of_cons. tauto. }
  split; [exact Hsome|].
  unfold guarded_header, defined. by rewrite bool_decide_eq_true_2.
Qed.

Lemma rmutex_h_is_not_processed_again_witness :
  env_at_line sample_includes 23 riot_c2rust_h predefined
    = Some (<["IS_C2RUST" := object_like []]>
             (<["RMUTEX_INIT" := object_like ["{"; "}"]]>
               (<["RMUTEX_H" := object_like []]> predefined))) ∧
  sample_includes Angle "rmutex.h"
      (<["IS_C2RUST" := object_like []]>
        (<["RMUTEX_INIT" := object_like ["{"; "}"]]>
          (<["RMUTEX_H" := object_like []]> predefined)))
    = Some (<["IS_C2RUST" := object_like []]>
             (<["RMUTEX_INIT" := object_like ["{"; "}"]]>
               (<["RMUTEX_H" := object_like []]> predefined))).
Proof.
  assert (Hrun : env_at_line sample_includes 23 riot_c2rust_h predefined
                 = Some (<["IS_C2RUST" := object_like []]>
                          (<["RMUTEX_INIT" := object_like ["{"; "}"]]>
                            (<["RMUTEX_H" := object_like []]> predefined))))
    by (vm_compute; reflexivity).
  split; [exact Hrun|].
  refine (proj2 (rmutex_h_is_not_processed_again sample_includes "RMUTEX_H"
                   (λ E, Some (<["RMUTEX_INIT" := object_like ["{"; "}"]]> E))
                   predefined _ _ _ _ Hrun)).
  - by_decide.
  - intros E E' [= <-] [m Hm]. exists m.
    rewrite lookup_insert_ne; [exact Hm|discriminate].
  - intros E. reflexivity.
Defined.

(** ** The order of the workaround lines *)

(** X7: the five [#define] lines before the inclusion of [rmutex.h] bind
    five different names, and so do the five [#undef] lines after it:
    written in any other order (as the source itself does for the guards,
    lines 8-9 against lines 14-15) the header behaves the same. *)
Theorem workaround_lines_may_be_reordered included ds us E0 :
  ds ≡ₚ lines 7 11 riot_c2rust_h →
  us ≡ₚ lines 13 17 riot_c2rust_h →
  exec included
    (ds ++ PInclude Angle "rmutex.h" :: us ++ lines 18 23 riot_c2rust_h)%list E0
  = preprocess included riot_c2rust_h E0.
Proof.
  intros Hds Hus. rewrite preprocess_eq.
  replace (parse_header riot_c2rust_h) with
    (lines 1 6 riot_c2rust_h ++
      (lines 7 11 riot_c2rust_h ++ PInclude Angle "rmutex.h"
         :: lines 13 17 riot_c2rust_h ++ lines 18 23 riot_c2rust_h))%list
    by (vm_compute; reflexivity).
  rewrite (exec_app included (lines 1 6 riot_c2rust_h)).
  rewrite (exec_directives included (lines 1 6 riot_c2rust_h)).
  replace (directives (lines 1 6 riot_c2rust_h)) with (@nil pp_line)
    by (vm_compute; reflexivity).
  cbn [exec mbind option_bind].
  rewrite (exec_app included ds), (exec_app included (lines 7 11 riot_c2rust_h)).
  rewrite <-(exec_local_perm included (lines 7 11 riot_c2rust_h) ds E0);
    [|vm_compute; reflexivity|by_decide|by symmetry].
  destruct (exec included (lines 7 11 riot_c2rust_h) E0) as [E12|]; [|done].
  cbn [exec exec_line mbind option_bind].
  destruct (included Angle "rmutex.h" E12) as [E13|]; [|done].
  cbn [mbind option_bind].
  rewrite (exec_app included us), (exec_app included (lines 13 17 riot_c2rust_h)).
  rewrite <-(exec_local_perm included (lines 13 17 riot_c2rust_h) us E13);
    [done|vm_compute; reflexivity|by_decide|by symmetry].
Qed.

Lemma workaround_lines_may_be_reordered_witness :
  exec sample_includes
    (reverse (lines 7 11 riot_c2rust_h) ++ PInclude Angle "rmutex.h"
       :: reverse (lines 13 17 riot_c2rust_h) ++ lines 18 23 riot_c2rust_h)%list predefined
  = preprocess sample_includes riot_c2rust_h predefined.
Proof.
  apply (workaround_lines_may_be_reordered sample_includes).
  - apply reverse_Permutation.
  - apply reverse_Permutation.
Defined.

(** ** Invoking the workaround macros *)

(** X8: while [rmutex.h] is included, an invocation of ATOMIC_VAR_INIT with
    a comma outside parentheses, such as ATOMIC_VAR_INIT({1, 2}), is read
    as two arguments and has no expansion, whatever the two parts are: the
    macro takes one argument. *)
Theorem ATOMIC_VAR_INIT_rejects_a_top_level_comma included E0 E12 a b (fuel : nat) :
  env_at_line included 12 riot_c2rust_h E0 = Some E12 →
  Expand.single_argument a = true →
  Expand.single_argument b = true →
  Expand.expand fuel E12
    (Expand.plain ("ATOMIC_VAR_INIT" :: "(" :: a ++ "," :: b ++ [")"])%list) = None.
Proof.
  intros H12 Ha Hb.
  destruct (c2rust_at_rmutex included E0) as (E12' & H12' & Hlook).
  assert (E12' = E12) as -> by congruence.
  assert (Hm : E12 !! "ATOMIC_VAR_INIT" = Some (Macro (Some ["x"]) ["x"]))
    by read_off Hlook.
  by apply (expand_two_arguments E12 "ATOMIC_VAR_INIT" "x" ["x"]).
Qed.

Lemma ATOMIC_VAR_INIT_rejects_a_top_level_comma_witness :
  Expand.expand 10 (atomic_workaround predefined)
    (Expand.plain ["ATOMIC_VAR_INIT"; "("; "{"; "1"; ","; "2"; "}"; ")"]) = None.
Proof.
  apply (ATOMIC_VAR_INIT_rejects_a_top_level_comma inert_includes predefined _
           ["{"; "1"] ["2"; "}"] 10).
  - apply c2rust_table_at_rmutex.
  - reflexivity.
  - reflexivity.
Defined.
